(** * awless: helpers of [aws/fetch] and the vendored go-git SSH transport

    A shallow embedding of

    - [aws/fetch/helpers.go] ([sliceOfSlice], [appendIfNotInSlice],
      [arnToName], [pluralizeIfNeeded]);
    - [vendor/gopkg.in/src-d/go-git.v4/plumbing/transport/ssh/common.go]
      (the [runner] and its [command] session).

    Go's [int] is the 64-bit signed integer: it is a [Z] whose additions
    are wrapped explicitly by [wrap64].  Go's [uint] is an [N].  Go
    strings are [string]s (sequences of bytes).  A call that panics in Go
    yields [Panicked]. *)

From Stdlib Require Import ZArith NArith String Ascii List Bool Lia.
From Stdlib Require Import DecimalString DecimalZ.
Import ListNotations.

Local Open Scope Z_scope.

(** ** Outcomes of Go calls *)

(** What running a Go function gives: a returned value or a run-time
    panic. *)
Inductive Outcome (R : Type) : Type :=
| Returned (r : R)
| Panicked.

Arguments Returned {R} r.
Arguments Panicked {R}.

(** ** 64-bit integers *)

Definition int_min : Z := - 2 ^ 63.
Definition int_max : Z := 2 ^ 63 - 1.

(** Two's complement wrap-around of a mathematical integer into [int]. *)
Definition wrap64 (z : Z) : Z := (z + 2 ^ 63) mod 2 ^ 64 - 2 ^ 63.

Definition is_int (z : Z) : Prop := int_min <= z <= int_max.

(** * aws/fetch/helpers.go *)

Module AwsFetch.

Section Slices.
Context {A : Type}.

(** [len(in)] as a Go [int]. *)
Definition len (l : list A) : Z := Z.of_nat (length l).

(** The slice expression [in[lo:hi]].  Go panics unless
    [0 <= lo <= hi <= cap(in)]; the slice is taken with its capacity
    equal to its length. *)
Definition slice (l : list A) (lo hi : Z) : option (list A) :=
  if (0 <=? lo) && (lo <=? hi) && (hi <=? len l)
  then Some (firstn (Z.to_nat (hi - lo)) (skipn (Z.to_nat lo) l))
  else None.

(** The loop [for i := 0; i < len(in); i += maxLength { ... }], entered
    with the current [i] and [res]; [None] when [fuel] iterations did
    not finish it. *)
Fixpoint sliceOfSlice_loop (fuel : nat) (in_ : list A) (maxLength i : Z)
         (res : list (list A)) : option (Outcome (list (list A))) :=
  match fuel with
  | O => None
  | S fuel' =>
      if i <? len in_ then
        let chunk :=
          if wrap64 (i + maxLength) <? len in_
          then slice in_ i (wrap64 (i + maxLength))
          else slice in_ i (len in_) in
        match chunk with
        | None => Some Panicked
        | Some c =>
            sliceOfSlice_loop fuel' in_ maxLength (wrap64 (i + maxLength))
                              (res ++ [c])
        end
      else Some (Returned res)
  end.

(** The loop runs at most [len(in)] iterations and one last test. *)
Definition sliceOfSlice (in_ : list A) (maxLength : Z)
  : option (Outcome (list (list A))) :=
  if maxLength <=? 0 then Some (Returned [])
  else if len in_ =? 0 then Some (Returned [])
  else sliceOfSlice_loop (S (length in_)) in_ maxLength 0 [].
End Slices.

(** [appendIfNotInSlice]: the whole slice is scanned, then [s] is appended
    when it was not met. *)
Definition appendIfNotInSlice (slice : list string) (s : string)
  : list string :=
  let found :=
    fold_left (fun found e => if String.eqb e s then true else found)
              slice false in
  if negb found then slice ++ [s] else slice.

(** [strings.Split(s, sep)] of Go's library for a separator of one byte:
    the substrings of [s] between the occurrences of [sep], in order; a
    string without [sep] (the empty one too) gives the one-element slice
    of [s] itself. *)
Fixpoint Split (s : string) (sep : ascii) : list string :=
  match s with
  | EmptyString => [EmptyString]
  | String a s' =>
      if Ascii.eqb a sep then EmptyString :: Split s' sep
      else match Split s' sep with
           | [] => [String a EmptyString]
           | piece :: pieces => String a piece :: pieces
           end
  end.

Definition arnToName (arn : string) : string :=
  let splits := Split arn "/" in
  if (1 <? length splits)%nat
  then nth (length splits - 1) splits EmptyString
  else arn.

Definition pluralizeIfNeeded (str : string) (n : N) : string :=
  if (1 <? n)%N then (str ++ "s")%string else str.

End AwsFetch.

(** * plumbing/transport *)

Module Transport.

(** Modelled from the spec: the [Endpoint] of package [transport], whose
    declaration is not among the sources: host, port (an [int], zero when
    unset), user and path, read through [Host()], [Port()], [User()] and
    [Path()]. *)
Record Endpoint : Type := {
  Host : string;
  Port : Z;
  User : string;
  Path : string
}.

(** Go [error] values.  [ErrInvalidAuthMethod] and [ErrAlreadyConnected]
    are the two sentinels of package [transport] that [common.go] names;
    every other error comes from a collaborator.  A nil [error] is
    [None : option error]. *)
Inductive error : Type :=
| ErrInvalidAuthMethod
| ErrAlreadyConnected
| ErrExternal (msg : string).

End Transport.

(** * plumbing/transport/ssh/common.go *)

Module SSH.
Import Transport.

Definition DefaultPort : Z := 22.

(** Non-nil pointers to the objects of [golang.org/x/crypto/ssh]. *)
Definition ClientPtr : Type := nat.
Definition SessionPtr : Type := nat.
Definition HostKeyCallback : Type := nat.

(** [ssh.ClientConfig], with the fields the transport deals with. *)
Record ClientConfig : Type := {
  cfg_User : string;
  cfg_Auth : list string;
  cfg_HostKeyCallback : option HostKeyCallback
}.

Definition set_HostKeyCallback (cb : option HostKeyCallback)
           (cfg : ClientConfig) : ClientConfig :=
  {| cfg_User := cfg_User cfg;
     cfg_Auth := cfg_Auth cfg;
     cfg_HostKeyCallback := cb |}.

(** The [AuthMethod] interface of package [ssh]: a [transport.AuthMethod]
    (with its [Name()]) that also has [clientConfig()], returning a
    possibly nil [*ssh.ClientConfig], and [hostKeyCallback()], returning a
    callback together with an error. *)
Record AuthMethod : Type := {
  Name : string;
  clientConfig : option ClientConfig;
  hostKeyCallback : option HostKeyCallback * option error
}.

(** A non-nil value of interface type [transport.AuthMethod]: its dynamic
    type either implements [ssh.AuthMethod] or does not (such as the HTTP
    transport's basic authentication). *)
Inductive transport_AuthMethod : Type :=
| SSHAuth (a : AuthMethod)
| ForeignAuth (name : string).

(** The type assertion [auth.(AuthMethod)]. *)
Definition assert_AuthMethod (a : transport_AuthMethod)
  : option AuthMethod :=
  match a with
  | SSHAuth a' => Some a'
  | ForeignAuth _ => None
  end.

(** What a session does that can be seen from outside: the calls to its
    collaborators, in order, and the writes to its [connected] flag. *)
Inductive Event : Type :=
| CallDefaultAuthBuilder (user : string)
| CallClientConfig (a : AuthMethod)
| CallHostKeyCallback (a : AuthMethod)
| CallDial (network addr : string) (config : ClientConfig)
| CallNewSession (cl : ClientPtr)
| CallSessionStart (s : SessionPtr) (cmd : string)
| CallSessionClose (s : SessionPtr)
| CallClientClose (cl : ClientPtr)
| StoreConnected (b : bool).

(** The collaborators.  What each call answers may depend on everything
    that happened before it (the first argument).  [DefaultAuthBuilder] is
    the package variable of that name. *)
Record Env : Type := {
  DefaultAuthBuilder :
    list Event -> string -> option AuthMethod * option error;
  Dial :
    list Event -> string -> string -> ClientConfig ->
    option ClientPtr * option error;
  NewSession : list Event -> ClientPtr -> option SessionPtr * option error;
  SessionStart : list Event -> SessionPtr -> string -> option error;
  SessionClose : list Event -> SessionPtr -> option error;
  ClientClose : list Event -> ClientPtr -> option error
}.

(** The [command] struct.  Its field [command] is [cmd] here, the name
    being taken by the type. *)
Record command : Type := {
  Session : option SessionPtr;
  connected : bool;
  cmd : string;
  endpoint : Endpoint;
  client : option ClientPtr;
  auth : option AuthMethod
}.

Definition set_Session (s : option SessionPtr) (c : command) : command :=
  {| Session := s; connected := connected c; cmd := cmd c;
     endpoint := endpoint c; client := client c; auth := auth c |}.

Definition set_connected (b : bool) (c : command) : command :=
  {| Session := Session c; connected := b; cmd := cmd c;
     endpoint := endpoint c; client := client c; auth := auth c |}.

Definition set_client (cl : option ClientPtr) (c : command) : command :=
  {| Session := Session c; connected := connected c; cmd := cmd c;
     endpoint := endpoint c; client := cl; auth := auth c |}.

Definition set_auth (a : option AuthMethod) (c : command) : command :=
  {| Session := Session c; connected := connected c; cmd := cmd c;
     endpoint := endpoint c; client := client c; auth := a |}.

(** The session a method runs on ([c]) and what has happened so far. *)
Record State : Type := {
  self : command;
  trace : list Event
}.

(** ** The monad of methods of [*command] *)

Definition M (R : Type) : Type := State -> Outcome R * State.

Definition ret {R} (r : R) : M R := fun st => (Returned r, st).

Definition bind {R R'} (m : M R) (k : R -> M R') : M R' :=
  fun st =>
    match m st with
    | (Returned r, st') => k r st'
    | (Panicked, st') => (Panicked, st')
    end.

Definition panic {R} : M R := fun st => (Panicked, st).

Notation "x <- m ;; k" := (bind m (fun x => k))
  (at level 61, m at next level, right associativity).
Notation "m ;; k" := (bind m (fun _ => k))
  (at level 61, right associativity).

Definition this : M command := fun st => (Returned (self st), st).

Definition update (f : command -> command) : M unit :=
  fun st => (Returned tt, {| self := f (self st); trace := trace st |}).

Definition emit (e : Event) : M unit :=
  fun st => (Returned tt, {| self := self st; trace := trace st ++ [e] |}).

(** A call to a collaborator: it answers from the history, and the call
    is recorded. *)
Definition call {R} (e : Event) (answer : list Event -> R) : M R :=
  fun st =>
    (Returned (answer (trace st)),
     {| self := self st; trace := trace st ++ [e] |}).

(** [c.connected = b] *)
Definition store_connected (b : bool) : M unit :=
  update (set_connected b) ;; emit (StoreConnected b).

(** [fmt]'s verb [%d] on an [int]. *)
Definition fmt_d (z : Z) : string := NilZero.string_of_int (Z.to_int z).

Section Methods.
Variable env : Env.

Definition setAuth (a : transport_AuthMethod) : M (option error) :=
  match assert_AuthMethod a with
  | None => ret (Some ErrInvalidAuthMethod)
  | Some a' => update (set_auth (Some a')) ;; ret None
  end.

Definition getHostWithPort (c : command) : string :=
  let host := Host (endpoint c) in
  let port := Port (endpoint c) in
  let port := if port <=? 0 then DefaultPort else port in
  (host ++ ":" ++ fmt_d port)%string.

Definition endpointToCommand (cmd : string) (ep : Endpoint) : string :=
  (cmd ++ " '" ++ Path ep ++ "'")%string.

Definition setAuthFromEndpoint : M (option error) :=
  c <- this ;;
  r <- call (CallDefaultAuthBuilder (User (endpoint c)))
            (fun h => DefaultAuthBuilder env h (User (endpoint c))) ;;
  update (set_auth (fst r)) ;;
  ret (snd r).

Definition Start : M (option error) :=
  c <- this ;;
  match Session c with
  | None => panic
  | Some s =>
      let line := endpointToCommand (cmd c) (endpoint c) in
      call (CallSessionStart s line) (fun h => SessionStart env h s line)
  end.

Definition Close : M (option error) :=
  c <- this ;;
  if negb (connected c) then ret None
  else
    store_connected false ;;
    c <- this ;;
    match Session c with
    | None => panic
    | Some s =>
        call (CallSessionClose s) (fun h => SessionClose env h s) ;;
        c <- this ;;
        match client c with
        | None => panic
        | Some cl =>
            call (CallClientClose cl) (fun h => ClientClose env h cl)
        end
    end.

Definition connect : M (option error) :=
  c <- this ;;
  if connected c then ret (Some ErrAlreadyConnected)
  else
    err <- (match auth c with
            | None => setAuthFromEndpoint
            | Some _ => ret None
            end) ;;
    match err with
    | Some e => ret (Some e)
    | None =>
        c <- this ;;
        match auth c with
        | None => panic
        | Some a =>
            config <- call (CallClientConfig a)
                           (fun _ => clientConfig a) ;;
            r <- call (CallHostKeyCallback a)
                      (fun _ => hostKeyCallback a) ;;
            match config with
            | None => panic
            | Some config =>
                let config := set_HostKeyCallback (fst r) config in
                match snd r with
                | Some e => ret (Some e)
                | None =>
                    c <- this ;;
                    let addr := getHostWithPort c in
                    d <- call (CallDial "tcp" addr config)
                              (fun h => Dial env h "tcp" addr config) ;;
                    update (set_client (fst d)) ;;
                    match snd d with
                    | Some e => ret (Some e)
                    | None =>
                        c <- this ;;
                        match client c with
                        | None => panic
                        | Some cl =>
                            s <- call (CallNewSession cl)
                                      (fun h => NewSession env h cl) ;;
                            update (set_Session (fst s)) ;;
                            match snd s with
                            | Some e =>
                                c <- this ;;
                                match client c with
                                | None => panic
                                | Some cl' =>
                                    call (CallClientClose cl')
                                         (fun h => ClientClose env h cl') ;;
                                    ret (Some e)
                                end
                            | None =>
                                store_connected true ;;
                                ret None
                            end
                        end
                    end
                end
            end
        end
    end.

(** [c := &command{command: cmd, endpoint: ep}] *)
Definition new_command (cmd : string) (ep : Endpoint) : command :=
  {| Session := None; connected := false; cmd := cmd; endpoint := ep;
     client := None; auth := None |}.

(** [runner.Command], run after the history [h].  It returns the
    pair [(c, nil)] or [(nil, err)]; the state it ends in holds the
    session [c] and the history. *)
Definition Command (cmd : string) (ep : Endpoint)
           (auth : option transport_AuthMethod) (h : list Event)
  : Outcome (option command * option error) * State :=
  (match auth with
   | Some a => setAuth a ;; ret tt
   | None => ret tt
   end ;;
   err <- connect ;;
   match err with
   | Some e => ret (None, Some e)
   | None => c <- this ;; ret (Some c, None)
   end)
    {| self := new_command cmd ep; trace := h |}.
End Methods.

End SSH.

(** * Observations on histories, and fake collaborators *)

Module Observe.
Import Transport SSH.

(** The users the default builder was asked for, in order. *)
Fixpoint builder_calls (t : list Event) : list string :=
  match t with
  | [] => []
  | CallDefaultAuthBuilder user :: t' => user :: builder_calls t'
  | _ :: t' => builder_calls t'
  end.

(** Calls that reach the network: dialing, and anything done with a
    connection or a channel. *)
Definition is_network_call (e : Event) : bool :=
  match e with
  | CallDial _ _ _ | CallNewSession _ | CallSessionStart _ _
  | CallSessionClose _ | CallClientClose _ => true
  | _ => false
  end.

Definition is_store (e : Event) : bool :=
  match e with
  | StoreConnected _ => true
  | _ => false
  end.

(** Reads a decimal numeral, as [strconv.Atoi] does. *)
Definition parse_d (s : string) : option Z :=
  option_map Z.of_int (NilZero.int_of_string s).

(** The characters ["0"] to ["9"], and what each stands for. *)
Definition is_digit (a : ascii) : bool :=
  (48 <=? nat_of_ascii a)%nat && (nat_of_ascii a <=? 57)%nat.

Definition digit_value (a : ascii) : Z := Z.of_nat (nat_of_ascii a) - 48.

Fixpoint all_digits (s : string) : bool :=
  match s with
  | EmptyString => true
  | String a s' => is_digit a && all_digits s'
  end.

(** The decimal numeral of a positive number as it is written: digits
    only, at least one, the first of them not a zero. *)
Definition canonical_decimal (s : string) : bool :=
  match s with
  | EmptyString => false
  | String a _ => negb (Ascii.eqb a "0") && all_digits s
  end.

(** The number a string of digits denotes, read from the left. *)
Fixpoint decimal_value_from (acc : Z) (s : string) : Z :=
  match s with
  | EmptyString => acc
  | String a s' => decimal_value_from (10 * acc + digit_value a) s'
  end.

Definition decimal_value (s : string) : Z := decimal_value_from 0 s.

End Observe.

Module Fakes.
Import Transport SSH.

Definition agent_config : ClientConfig :=
  {| cfg_User := "git"; cfg_Auth := ["publickey"%string];
     cfg_HostKeyCallback := None |}.

(** An agent-based method whose two capabilities succeed. *)
Definition agent_auth : AuthMethod :=
  {| Name := "ssh-public-key-callback";
     clientConfig := Some agent_config;
     hostKeyCallback := (Some 1%nat, None) |}.

(** A key-based method, for the caller to pass explicitly. *)
Definition key_auth : AuthMethod :=
  {| Name := "ssh-public-keys";
     clientConfig := Some agent_config;
     hostKeyCallback := (Some 2%nat, None) |}.

(** Every collaborator succeeds. *)
Definition all_good : Env :=
  {| DefaultAuthBuilder := fun _ _ => (Some agent_auth, None);
     Dial := fun _ _ _ _ => (Some 7%nat, None);
     NewSession := fun _ _ => (Some 9%nat, None);
     SessionStart := fun _ _ _ => None;
     SessionClose := fun _ _ => None;
     ClientClose := fun _ _ => None |}.

(** The server accepts the connection and refuses the channel. *)
Definition no_channel : Env :=
  {| DefaultAuthBuilder := fun _ _ => (Some agent_auth, None);
     Dial := fun _ _ _ _ => (Some 7%nat, None);
     NewSession := fun _ _ => (None, Some (ErrExternal "ssh: rejected"));
     SessionStart := fun _ _ _ => None;
     SessionClose := fun _ _ => None;
     ClientClose := fun _ _ => None |}.

(** Both closes fail, each with its own error. *)
Definition failing_closes : Env :=
  {| DefaultAuthBuilder := fun _ _ => (Some agent_auth, None);
     Dial := fun _ _ _ _ => (Some 7%nat, None);
     NewSession := fun _ _ => (Some 9%nat, None);
     SessionStart := fun _ _ _ => None;
     SessionClose := fun _ _ => Some (ErrExternal "EOF");
     ClientClose := fun _ _ => Some (ErrExternal "use of closed conn") |}.

(** No agent can be reached. *)
Definition no_agent : Env :=
  {| DefaultAuthBuilder :=
       fun _ _ => (None, Some (ErrExternal "SSH_AUTH_SOCK not set"));
     Dial := fun _ _ _ _ => (Some 7%nat, None);
     NewSession := fun _ _ => (Some 9%nat, None);
     SessionStart := fun _ _ _ => None;
     SessionClose := fun _ _ => None;
     ClientClose := fun _ _ => None |}.

Definition example_endpoint : Endpoint :=
  {| Host := "example.com"; Port := 0; User := "git";
     Path := "/repo.git" |}.

(** Nothing answers at the address. *)
Definition no_route : Env :=
  {| DefaultAuthBuilder := fun _ _ => (Some agent_auth, None);
     Dial := fun _ _ _ _ => (None, Some (ErrExternal "connection refused"));
     NewSession := fun _ _ => (Some 9%nat, None);
     SessionStart := fun _ _ _ => None;
     SessionClose := fun _ _ => None;
     ClientClose := fun _ _ => None |}.

(** A builder that gives neither a method nor an error. *)
Definition empty_builder : Env :=
  {| DefaultAuthBuilder := fun _ _ => (None, None);
     Dial := fun _ _ _ _ => (Some 7%nat, None);
     NewSession := fun _ _ => (Some 9%nat, None);
     SessionStart := fun _ _ _ => None;
     SessionClose := fun _ _ => None;
     ClientClose := fun _ _ => None |}.

(** A method that cannot read its known hosts. *)
Definition no_known_hosts : AuthMethod :=
  {| Name := "ssh-public-keys";
     clientConfig := Some agent_config;
     hostKeyCallback := (None, Some (ErrExternal "known_hosts: not found")) |}.

(** A method whose [clientConfig()] is nil. *)
Definition no_config : AuthMethod :=
  {| Name := "ssh-public-keys";
     clientConfig := None;
     hostKeyCallback := (Some 2%nat, None) |}.

(** An unconnected session for [git-upload-pack] on the example endpoint,
    given the method [a]. *)
Definition fresh_session (a : option AuthMethod) : State :=
  {| self := set_auth a (new_command "git-upload-pack" example_endpoint);
     trace := [] |}.

End Fakes.

(** * Properties of aws/fetch/helpers.go *)

Section SliceFacts.
Import AwsFetch.
Context {A : Type}.
Implicit Types (l pre rest : list A) (res cs : list (list A)).

Lemma wrap64_id (z : Z) : is_int z -> wrap64 z = z.
Proof.
  unfold is_int, int_min, int_max, wrap64. intros Hz.
  rewrite Z.mod_small; lia.
Qed.

Lemma len_app pre rest : len (pre ++ rest) = len pre + len rest.
Proof. unfold len. rewrite length_app. lia. Qed.

Lemma len_nonneg l : 0 <= len l.
Proof. unfold len. lia. Qed.

(** A slice that starts where [pre] ends takes from [rest]. *)
Lemma slice_after pre rest (n : Z) :
  0 <= n <= len rest ->
  slice (pre ++ rest) (len pre) (len pre + n)
  = Some (firstn (Z.to_nat n) rest).
Proof.
  intros Hn. unfold slice. rewrite len_app.
  pose proof (len_nonneg pre) as Hpre.
  replace ((0 <=? len pre) && (len pre <=? len pre + n)
           && (len pre + n <=? len pre + len rest)) with true
    by (symmetry; rewrite !andb_true_iff, !Z.leb_le; lia).
  replace (len pre + n - len pre) with n by lia.
  unfold len at 1. rewrite Nat2Z.id, skipn_app, skipn_all, Nat.sub_diag.
  reflexivity.
Qed.

Lemma sliceOfSlice_loop_done fuel l (m i : Z) res :
  len l <= i ->
  sliceOfSlice_loop (S fuel) l m i res = Some (Returned res).
Proof.
  intros Hi. simpl.
  destruct (i <? len l) eqn:E; [apply Z.ltb_lt in E; lia | reflexivity].
Qed.

(** What the loop appends when it is entered at the end of [pre] with
    [rest] still to go. *)
Lemma sliceOfSlice_loop_spec l (m : Z) :
  0 < m -> m <= int_max -> len l <= 2 ^ 62 ->
  forall fuel pre rest res,
    l = pre ++ rest ->
    (length rest < fuel)%nat ->
    pre = [] \/ m <= len pre ->
    exists cs,
      sliceOfSlice_loop fuel l m (len pre) res
      = Some (Returned (res ++ cs))
      /\ concat cs = rest
      /\ Forall (fun c => len c <= m) cs
      /\ (forall k, (S k < length cs)%nat -> len (nth k cs []) = m).
Proof.
  intros Hm Hmax Hl.
  induction fuel as [|fuel IH]; intros pre rest res El Hfuel Hpre;
    [lia|].
  assert (Hsum : len pre + len rest = len l)
    by (rewrite El, len_app; reflexivity).
  pose proof (len_nonneg pre) as Hp0. pose proof (len_nonneg rest) as Hr0.
  destruct rest as [|x rest'] eqn:Erest.
  { (* the input is used up *)
    exists []. rewrite app_nil_r.
    split; [|repeat split; [constructor | simpl; intros; lia]].
    apply sliceOfSlice_loop_done. unfold len in *. simpl in *. lia. }
  rewrite <- Erest in *.
  assert (Hpos : 0 < len rest)
    by (rewrite Erest; unfold len; simpl; lia).
  assert (Hw : wrap64 (len pre + m) = len pre + m).
  { apply wrap64_id. unfold is_int, int_min, int_max in *.
    destruct Hpre as [-> | Hge]; [unfold len; simpl; lia | lia]. }
  cbn [sliceOfSlice_loop].
  replace (len pre <? len l) with true by (symmetry; apply Z.ltb_lt; lia).
  rewrite Hw.
  destruct (len pre + m <? len l) eqn:Elt.
  - (* a full chunk, and more to come *)
    apply Z.ltb_lt in Elt.
    replace (slice l) with (slice (pre ++ rest)) by (rewrite El; reflexivity).
    rewrite slice_after by lia.
    set (c := firstn (Z.to_nat m) rest).
    assert (Hc : len c = m).
    { unfold c, len. rewrite length_firstn. unfold len in *. lia. }
    destruct (IH (pre ++ c) (skipn (Z.to_nat m) rest) (res ++ [c]))
      as (cs & Hrun & Hcat & Hall & Hfull).
    + rewrite <- app_assoc. unfold c. rewrite firstn_skipn. exact El.
    + rewrite length_skipn. unfold len in *. lia.
    + right. rewrite len_app. lia.
    + exists (c :: cs). rewrite len_app, Hc in Hrun.
      split; [|split; [|split]].
      * rewrite Hrun, <- app_assoc. reflexivity.
      * simpl. rewrite Hcat. apply firstn_skipn.
      * constructor; [lia | exact Hall].
      * intros [|k] Hk; simpl in *; [exact Hc | apply Hfull; lia].
  - (* the last chunk *)
    apply Z.ltb_ge in Elt.
    replace (slice l (len pre) (len l))
      with (slice (pre ++ rest) (len pre) (len pre + len rest))
      by (rewrite El, Hsum, <- El; reflexivity).
    rewrite slice_after by lia.
    replace (Z.to_nat (len rest)) with (length rest)
      by (unfold len; lia).
    rewrite firstn_all.
    destruct fuel as [|fuel]; [unfold len in *; lia|].
    rewrite sliceOfSlice_loop_done by lia.
    exists [rest]. split; [reflexivity|]. split; [apply app_nil_r|].
    split; [constructor; [lia | constructor]|].
    simpl. intros k Hk. lia.
Qed.
End SliceFacts.

Section SliceOfSlice.
Import AwsFetch.
Context {A : Type}.

(** C9: for [maxLength > 0] (an [int]) and a slice of at most [2^62]
    elements, [sliceOfSlice] returns chunks whose concatenation is the
    input, each of at most [maxLength] elements and each but the last
    of exactly [maxLength]; for [maxLength <= 0] or an empty input it
    returns the empty result. *)
Theorem C9_sliceOfSlice_chunks (in_ : list A) (maxLength : Z) :
  (0 < maxLength -> maxLength <= int_max -> len in_ <= 2 ^ 62 ->
   exists cs,
     sliceOfSlice in_ maxLength = Some (Returned cs)
     /\ concat cs = in_
     /\ Forall (fun c => len c <= maxLength) cs
     /\ (forall k, (S k < length cs)%nat ->
                   len (nth k cs []) = maxLength))
  /\ (maxLength <= 0 \/ in_ = [] ->
      sliceOfSlice in_ maxLength = Some (Returned [])).
Proof.
  split.
  - intros Hm Hmax Hlen. unfold sliceOfSlice.
    replace (maxLength <=? 0) with false by (symmetry; apply Z.leb_gt; lia).
    destruct (len in_ =? 0) eqn:E0.
    + apply Z.eqb_eq in E0. destruct in_; [|unfold len in E0; simpl in E0; lia].
      exists []. repeat split; [constructor | simpl; intros; lia].
    + destruct (sliceOfSlice_loop_spec in_ maxLength Hm Hmax Hlen
                  (S (length in_)) [] in_ [])
        as (cs & Hrun & Hrest); [reflexivity | lia | now left |].
      exists cs. split; [exact Hrun | exact Hrest].
  - intros [Hm | ->]; unfold sliceOfSlice.
    + replace (maxLength <=? 0) with true by (symmetry; apply Z.leb_le; lia).
      reflexivity.
    + destruct (maxLength <=? 0); reflexivity.
Qed.
End SliceOfSlice.

Section SliceOfSliceTotal.
Import AwsFetch.
Context {A : Type}.

Lemma slice_negative (l : list A) (lo hi : Z) :
  lo < 0 -> slice l lo hi = None.
Proof.
  intros Hlo. unfold slice.
  replace (0 <=? lo) with false by (symmetry; apply Z.leb_gt; lia).
  reflexivity.
Qed.

(** The loop ends within the iterations [sliceOfSlice] allows it: [i]
    grows until it leaves the slice, and an [i] that wrapped around is
    negative and makes the next slice expression panic. *)
Lemma sliceOfSlice_loop_ends (l : list A) (m : Z) :
  0 < m -> m <= int_max ->
  forall fuel i res,
    is_int i ->
    (0 <= i -> (Z.to_nat (len l - i) < fuel)%nat) ->
    (i < 0 -> (0 < fuel)%nat) ->
    sliceOfSlice_loop fuel l m i res <> None.
Proof.
  intros Hm Hmax. unfold is_int, int_min, int_max in *.
  induction fuel as [|fuel IH]; intros i res Hi Hfuel Hneg; [lia|].
  cbn [sliceOfSlice_loop].
  destruct (i <? len l) eqn:Ei; [|discriminate].
  apply Z.ltb_lt in Ei.
  destruct (Z.ltb_spec i 0) as [Hlt | Hge].
  { rewrite !slice_negative by lia.
    destruct (wrap64 (i + m) <? len l); discriminate. }
  assert (Hw : wrap64 (i + m) = i + m \/ wrap64 (i + m) < 0).
  { destruct (Z_le_gt_dec (i + m) (2 ^ 63 - 1)) as [Hfit | Hover].
    - left. apply wrap64_id. unfold is_int, int_min, int_max. lia.
    - right. unfold wrap64.
      replace (i + m + 2 ^ 63) with (i + m - 2 ^ 63 + 1 * 2 ^ 64) by lia.
      rewrite Z.mod_add, Z.mod_small; lia. }
  assert (Hint : is_int (wrap64 (i + m))).
  { unfold is_int, int_min, int_max, wrap64.
    pose proof (Z.mod_pos_bound (i + m + 2 ^ 63) (2 ^ 64)). lia. }
  destruct (if wrap64 (i + m) <? len l
            then slice l i (wrap64 (i + m))
            else slice l i (len l)); [|discriminate].
  apply IH; [exact Hint | lia | lia].
Qed.

Theorem sliceOfSlice_total (in_ : list A) (maxLength : Z) :
  is_int maxLength -> sliceOfSlice in_ maxLength <> None.
Proof.
  intros Hint. unfold sliceOfSlice.
  destruct (Z.leb_spec maxLength 0) as [|Hm]; [discriminate|].
  destruct (len in_ =? 0); [discriminate|].
  apply sliceOfSlice_loop_ends; unfold is_int, int_min, int_max in *;
    try lia.
  unfold len. lia.
Qed.
End SliceOfSliceTotal.

Lemma C9_sliceOfSlice_chunks_witness :
  exists cs,
    AwsFetch.sliceOfSlice [1; 2; 3; 4; 5]%nat 2 = Some (Returned cs)
    /\ concat cs = [1; 2; 3; 4; 5]%nat
    /\ Forall (fun c => AwsFetch.len c <= 2) cs
    /\ (forall k, (S k < length cs)%nat ->
                  AwsFetch.len (nth k cs []) = 2).
Proof.
  apply (proj1 (C9_sliceOfSlice_chunks [1; 2; 3; 4; 5]%nat 2)).
  - lia.
  - unfold int_max. lia.
  - unfold AwsFetch.len. simpl. lia.
Defined.

Example sliceOfSlice_five_by_two :
  AwsFetch.sliceOfSlice [1; 2; 3; 4; 5]%nat 2
  = Some (Returned [[1; 2]; [3; 4]; [5]]%nat).
Proof. reflexivity. Qed.

Example sliceOfSlice_largest_int :
  AwsFetch.sliceOfSlice [1; 2; 3]%nat int_max
  = Some (Returned [[1; 2; 3]]%nat).
Proof. reflexivity. Qed.

Lemma append_s_differs (str : string) : (str ++ "s")%string <> str.
Proof.
  induction str as [|a str IH]; simpl; [discriminate|].
  intros [= H]. exact (IH H).
Qed.

(** C10: [pluralizeIfNeeded str n] is [str] with ["s"] appended exactly
    when [n > 1], and [str] itself otherwise; zero counts as singular. *)
Theorem C10_pluralizeIfNeeded (str : string) (n : N) :
  (AwsFetch.pluralizeIfNeeded str n = (str ++ "s")%string <-> (1 < n)%N)
  /\ (AwsFetch.pluralizeIfNeeded str n = str <-> (n <= 1)%N)
  /\ AwsFetch.pluralizeIfNeeded str 0 = str.
Proof.
  unfold AwsFetch.pluralizeIfNeeded.
  split; [|split; [|reflexivity]].
  - destruct (1 <? n)%N eqn:E.
    + apply N.ltb_lt in E. tauto.
    + apply N.ltb_ge in E. split; [|lia].
      intros H. symmetry in H. now apply append_s_differs in H.
  - destruct (1 <? n)%N eqn:E.
    + apply N.ltb_lt in E. split; [|lia].
      intros H. now apply append_s_differs in H.
    + apply N.ltb_ge in E. tauto.
Qed.

(** * Properties of plumbing/transport/ssh/common.go *)

Import Transport SSH Observe Fakes.

Ltac run_methods :=
  unfold Command, connect, Close, Start, setAuth, setAuthFromEndpoint,
    store_connected, call, update, emit, this, bind, ret, panic in *;
  simpl in *.

(** Case analysis on every answer the run in [H] depends on. *)
Ltac split_run H :=
  repeat first
    [ match type of H with
      | context [snd ?p] => destruct p as [? ?] eqn:?; simpl in H
      end
    | match type of H with
      | context [match ?x with _ => _ end] =>
          lazymatch x with
          | context [match _ with _ => _ end] => fail
          | _ => destruct x eqn:?; simpl in H
          end
      end ].

Ltac flatten_traces := rewrite <- ?app_assoc in *; simpl in *.

(** Finds where an event sits in a history that is known in full. *)
Ltac peel :=
  repeat match goal with
    | H : _ :: _ = ?pre ++ _ :: _ |- _ =>
        destruct pre; simpl in H; inversion H; clear H; subst
    | H : [] = ?pre ++ _ :: _ |- _ => destruct pre; discriminate H
    end.

Lemma nothing_appended {X : Type} (t new : list X) :
  t = t ++ new -> [] = new.
Proof.
  intros H. rewrite <- (app_nil_r t) in H at 1.
  now apply app_inv_head in H.
Qed.

Ltac new_events H :=
  first [apply app_inv_head in H | apply nothing_appended in H].

(** ** The lifecycle of a session *)

(** [connect] only ever adds to the history. *)
Lemma connect_extends_trace env st :
  exists new, trace (snd (connect env st)) = trace st ++ new.
Proof.
  destruct (connect env st) as [r st'] eqn:Hrun.
  destruct st as [[S cn cm ep clt au] tr].
  run_methods.
  destruct cn; [|destruct au as [a|]]; simpl in Hrun.
  all: split_run Hrun.
  all: injection Hrun as <- <-; simpl; flatten_traces.
  all: try (eexists; reflexivity).
  exists []. now rewrite app_nil_r.
Qed.

(** A [connect] that reports no error leaves the flag set and a
    connection in place. *)
Lemma connect_success env st st' :
  connect env st = (Returned None, st') ->
  connected (self st) = false
  /\ connected (self st') = true
  /\ exists cl, client (self st') = Some cl.
Proof.
  destruct st as [[S cn cm ep clt au] tr].
  intros Hrun. run_methods.
  destruct cn; [|destruct au as [a|]]; simpl in Hrun.
  all: split_run Hrun.
  all: try discriminate Hrun.
  all: injection Hrun as <-; simpl; eauto.
Qed.

(** With no default method to fall back on, [connect] goes on exactly as
    from a session that was given the method the builder made. *)
Lemma connect_resolves_default env c t a :
  connected c = false -> auth c = None ->
  DefaultAuthBuilder env t (User (endpoint c)) = (Some a, None) ->
  connect env {| self := c; trace := t |}
  = connect env {| self := set_auth (Some a) c;
                   trace := t ++ [CallDefaultAuthBuilder
                                    (User (endpoint c))] |}.
Proof.
  destruct c as [S cn cm ep clt au]. simpl.
  intros -> -> Hb. run_methods. rewrite Hb. reflexivity.
Qed.

(** C3: once [connect] has succeeded on a session, calling it again on
    that session, whatever has happened since and whatever the
    collaborators would answer, fails with [ErrAlreadyConnected] and
    changes neither the flag (still set) nor any other part of the
    state. *)
Theorem C3_connect_twice env st st1 :
  connect env st = (Returned None, st1) ->
  connected (self st1) = true
  /\ connect env st1 = (Returned (Some ErrAlreadyConnected), st1)
  /\ forall env' t,
      connect env' {| self := self st1; trace := t |}
      = (Returned (Some ErrAlreadyConnected),
         {| self := self st1; trace := t |}).
Proof.
  intros Hrun. destruct (connect_success _ _ _ Hrun) as (_ & Hc & _).
  split; [exact Hc|].
  assert (Hagain : forall env' t,
             connect env' {| self := self st1; trace := t |}
             = (Returned (Some ErrAlreadyConnected),
                {| self := self st1; trace := t |})).
  { intros env' t. unfold connect, bind, this. simpl. rewrite Hc.
    reflexivity. }
  split; [|exact Hagain].
  destruct st1 as [c1 t1]. apply Hagain.
Qed.

Lemma C3_connect_twice_witness :
  let st1 := snd (connect all_good
                    {| self := new_command "git-upload-pack" example_endpoint;
                       trace := [] |}) in
  connected (self st1) = true
  /\ connect all_good st1 = (Returned (Some ErrAlreadyConnected), st1)
  /\ forall env' t,
      connect env' {| self := self st1; trace := t |}
      = (Returned (Some ErrAlreadyConnected),
         {| self := self st1; trace := t |}).
Proof.
  apply (C3_connect_twice all_good
           {| self := new_command "git-upload-pack" example_endpoint;
              trace := [] |}).
  reflexivity.
Defined.



(** C5: on a session whose flag is not set, [Close] returns no error and
    leaves the session and the history as they were: no collaborator is
    called. *)
Theorem C5_Close_unconnected env st :
  connected (self st) = false ->
  Close env st = (Returned None, st).
Proof.
  destruct st as [c t]. simpl. intros Hc.
  unfold Close, bind, this, ret. simpl. rewrite Hc. reflexivity.
Qed.

Lemma C5_Close_unconnected_witness :
  Close failing_closes
        {| self := new_command "git-upload-pack" example_endpoint;
           trace := [] |}
  = (Returned None,
     {| self := new_command "git-upload-pack" example_endpoint;
        trace := [] |}).
Proof.
  apply (C5_Close_unconnected failing_closes
           {| self := new_command "git-upload-pack" example_endpoint;
              trace := [] |}).
  reflexivity.
Defined.

(** C2: whenever a run of [connect] dials, the dial succeeds and opening
    the channel on the connection fails, all that follows the dial is the
    attempt to open the channel and then the close of that connection;
    [connect] returns the channel's error, and the flag is not set. *)
Theorem C2_connect_closes_after_channel_failure
        env st r st' new pre net addr cfg tail cl s e :
  connect env st = (r, st') ->
  trace st' = trace st ++ new ->
  new = pre ++ CallDial net addr cfg :: tail ->
  Dial env (trace st ++ pre) net addr cfg = (Some cl, None) ->
  NewSession env (trace st ++ pre ++ [CallDial net addr cfg]) cl
  = (s, Some e) ->
  r = Returned (Some e)
  /\ tail = [CallNewSession cl; CallClientClose cl]
  /\ connected (self st') = false
  /\ connected (self st) = false.
Proof.
  destruct st as [[S cn cm ep clt au] tr].
  intros Hrun Htr Hnew Hd Hs.
  run_methods.
  destruct cn; [|destruct au as [a|]]; simpl in Hrun.
  all: split_run Hrun.
  all: injection Hrun as <- <-; simpl in *; flatten_traces.
  all: new_events Htr; subst new.
  all: peel.
  all: flatten_traces.
  all: repeat split; congruence.
Qed.

Lemma C2_connect_closes_after_channel_failure_witness :
  let st := {| self := set_auth (Some key_auth)
                         (new_command "git-upload-pack" example_endpoint);
               trace := [] |} in
  fst (connect no_channel st) = Returned (Some (ErrExternal "ssh: rejected"))
  /\ [CallNewSession 7%nat; CallClientClose 7%nat]
     = [CallNewSession 7%nat; CallClientClose 7%nat]
  /\ connected (self (snd (connect no_channel st))) = false
  /\ connected (self st) = false.
Proof.
  intros st.
  apply (C2_connect_closes_after_channel_failure
           no_channel st
           (fst (connect no_channel st)) (snd (connect no_channel st))
           (skipn 0 (trace (snd (connect no_channel st))))
           [CallClientConfig key_auth; CallHostKeyCallback key_auth]
           "tcp" "example.com:22"
           (set_HostKeyCallback (Some 2%nat) agent_config)
           [CallNewSession 7%nat; CallClientClose 7%nat]
           7%nat None (ErrExternal "ssh: rejected")); reflexivity.
Defined.

(** The whole run on the server that refuses the channel. *)
Example connect_no_channel_run :
  Command no_channel "git-upload-pack" example_endpoint
          (Some (SSHAuth key_auth)) []
  = (Returned (None, Some (ErrExternal "ssh: rejected")),
     {| self := set_client (Some 7%nat)
                  (set_auth (Some key_auth)
                     (new_command "git-upload-pack" example_endpoint));
        trace := [CallClientConfig key_auth; CallHostKeyCallback key_auth;
                  CallDial "tcp" "example.com:22"
                           (set_HostKeyCallback (Some 2%nat) agent_config);
                  CallNewSession 7%nat; CallClientClose 7%nat] |}).
Proof. reflexivity. Qed.

(** C8: a session constructed with a valid explicit method never asks the
    default builder; one constructed with nil asks it exactly once, for
    the endpoint's user, and when the builder fails its error is what the
    construction returns. *)
Theorem C8_default_builder_use env cmd ep h :
  (forall a,
      exists new,
        trace (snd (Command env cmd ep (Some (SSHAuth a)) h)) = h ++ new
        /\ builder_calls new = [])
  /\ (exists new,
        trace (snd (Command env cmd ep None h)) = h ++ new
        /\ builder_calls new = [User ep])
  /\ (forall e,
        snd (DefaultAuthBuilder env h (User ep)) = Some e ->
        fst (Command env cmd ep None h) = Returned (None, Some e)).
Proof.
  split; [|split].
  - intros a.
    destruct (Command env cmd ep (Some (SSHAuth a)) h) as [r st'] eqn:Hrun.
    run_methods. split_run Hrun.
    all: injection Hrun as <- <-; simpl; flatten_traces.
    all: eexists; split; reflexivity.
  - destruct (Command env cmd ep None h) as [r st'] eqn:Hrun.
    run_methods. split_run Hrun.
    all: injection Hrun as <- <-; simpl; flatten_traces.
    all: eexists; split; reflexivity.
  - intros e He. run_methods.
    destruct (DefaultAuthBuilder env h (User ep)) as [oa oe].
    simpl in *. subst oe. reflexivity.
Qed.

Lemma C8_default_builder_use_witness :
  fst (Command no_agent "git-upload-pack" example_endpoint None [])
  = Returned (None, Some (ErrExternal "SSH_AUTH_SOCK not set")).
Proof.
  apply (proj2 (proj2 (C8_default_builder_use
                         no_agent "git-upload-pack" example_endpoint []))).
  reflexivity.
Defined.

(** ** Authentication given at construction *)

(** [setAuth] itself refuses a method of another transport, and leaves
    the session as it was. *)
Lemma setAuth_rejects_foreign name st :
  setAuth (ForeignAuth name) st = (Returned (Some ErrInvalidAuthMethod), st).
Proof. reflexivity. Qed.

Lemma setAuth_accepts_ssh a c t :
  setAuth (SSHAuth a) {| self := c; trace := t |}
  = (Returned None, {| self := set_auth (Some a) c; trace := t |}).
Proof. reflexivity. Qed.

(** C1, as the code has it: [Command] drops what [setAuth] returns, so a
    non-nil method that is not an [ssh.AuthMethod] is treated exactly as
    nil; with collaborators that all succeed the construction asks the
    default builder, dials, and returns a connected session and no
    error. *)
Theorem C1_invalid_auth_not_rejected :
  (forall env cmd ep name h,
      Command env cmd ep (Some (ForeignAuth name)) h
      = Command env cmd ep None h)
  /\ (let run := Command all_good "git-upload-pack" example_endpoint
                         (Some (ForeignAuth "http-basic-auth")) [] in
      fst run = Returned (Some (self (snd run)), None)
      /\ connected (self (snd run)) = true
      /\ builder_calls (trace (snd run)) = ["git"%string]
      /\ existsb is_network_call (trace (snd run)) = true).
Proof.
  split; [reflexivity|].
  cbv zeta. repeat split.
Qed.

(** ** Addresses and command lines *)

Lemma parse_d_fmt_d (z : Z) : parse_d (fmt_d z) = Some z.
Proof.
  unfold parse_d, fmt_d.
  rewrite NilZero.isi.
  - simpl. now rewrite DecimalZ.of_to.
  - destruct z; simpl; try discriminate.
    intros [= H]. now apply DecimalPos.Unsigned.to_uint_nonnil in H.
  - destruct z; simpl; try discriminate.
    intros [= H]. now apply DecimalPos.Unsigned.to_uint_nonnil in H.
Qed.

Lemma digits_of_uint (d : Decimal.uint) :
  all_digits (NilEmpty.string_of_uint d) = true.
Proof. induction d; simpl; auto. Qed.

Lemma value_of_uint_acc (d : Decimal.uint) (acc : positive) :
  decimal_value_from (Z.pos acc) (NilEmpty.string_of_uint d)
  = Z.pos (Pos.of_uint_acc d acc).
Proof.
  revert acc. induction d; intros acc;
    cbn [NilEmpty.string_of_uint decimal_value_from Pos.of_uint_acc];
    [reflexivity | ..].
  all: rewrite <- IHd; f_equal; unfold digit_value.
  all: match goal with
       | |- context [nat_of_ascii ?a] =>
           let n := eval vm_compute in (nat_of_ascii a) in
           change (nat_of_ascii a) with n
       end; lia.
Qed.

Lemma value_of_uint (d : Decimal.uint) :
  decimal_value (NilEmpty.string_of_uint d) = Z.of_N (Pos.of_uint d).
Proof.
  unfold decimal_value. induction d; simpl; [reflexivity | exact IHd | ..].
  all: apply (value_of_uint_acc d).
Qed.

Lemma nzhead_no_leading_zero (d d' : Decimal.uint) :
  Decimal.nzhead d <> Decimal.D0 d'.
Proof. induction d; simpl; try discriminate; exact IHd. Qed.

(** The numeral of a positive number does not start with a zero. *)
Lemma to_uint_no_leading_zero (p : positive) (d : Decimal.uint) :
  Pos.to_uint p <> Decimal.D0 d.
Proof.
  intros E.
  pose proof (DecimalZ.to_of (Z.to_int (Z.pos p))) as Hn.
  rewrite DecimalZ.of_to in Hn. simpl in Hn. injection Hn as Hn.
  rewrite E in Hn. unfold Decimal.unorm in Hn. simpl in Hn.
  destruct (Decimal.nzhead d) eqn:Ehd; try discriminate Hn.
  - injection Hn as ->.
    exact (DecimalPos.Unsigned.to_uint_nonzero p E).
  - exact (nzhead_no_leading_zero d _ Ehd).
Qed.

(** What [%d] writes for a positive [int]: the one numeral without sign
    or leading zero that denotes it. *)
Lemma fmt_d_positive (z : Z) :
  0 < z ->
  canonical_decimal (fmt_d z) = true /\ decimal_value (fmt_d z) = z.
Proof.
  destruct z as [|p|p]; try lia. intros _.
  unfold fmt_d. simpl Z.to_int. unfold NilZero.string_of_int.
  unfold NilZero.string_of_uint.
  pose proof (DecimalPos.Unsigned.to_uint_nonnil p) as Hnil.
  pose proof (to_uint_no_leading_zero p) as Hzero.
  pose proof (digits_of_uint (Pos.to_uint p)) as Hdig.
  pose proof (value_of_uint (Pos.to_uint p)) as Hval.
  rewrite DecimalPos.Unsigned.of_to in Hval.
  destruct (Pos.to_uint p) as [|d|d|d|d|d|d|d|d|d|d] eqn:E;
    [contradiction | exfalso; exact (Hzero d eq_refl) | ..].
  all: split; [exact Hdig | exact Hval].
Qed.

Lemma uint_of_digits (s : string) :
  all_digits s = true -> exists d, NilEmpty.string_of_uint d = s.
Proof.
  induction s as [|a s IH]; simpl; intros Hdig.
  - exists Decimal.Nil. reflexivity.
  - apply andb_true_iff in Hdig. destruct Hdig as [Ha Hs].
    destruct (IH Hs) as [d <-].
    destruct a as [[|] [|] [|] [|] [|] [|] [|] [|]]; try discriminate Ha.
    all: first
      [ exists (Decimal.D0 d); reflexivity
      | exists (Decimal.D1 d); reflexivity
      | exists (Decimal.D2 d); reflexivity
      | exists (Decimal.D3 d); reflexivity
      | exists (Decimal.D4 d); reflexivity
      | exists (Decimal.D5 d); reflexivity
      | exists (Decimal.D6 d); reflexivity
      | exists (Decimal.D7 d); reflexivity
      | exists (Decimal.D8 d); reflexivity
      | exists (Decimal.D9 d); reflexivity ].
Qed.

Lemma to_uint_normal (p : positive) :
  Decimal.unorm (Pos.to_uint p) = Pos.to_uint p.
Proof.
  pose proof (DecimalZ.to_of (Z.to_int (Z.pos p))) as Hn.
  rewrite DecimalZ.of_to in Hn. simpl in Hn. injection Hn as Hn.
  symmetry. exact Hn.
Qed.

(** No other such numeral denotes the same number. *)
Lemma canonical_decimal_unique (s : string) (z : Z) :
  0 < z ->
  canonical_decimal s = true -> decimal_value s = z -> s = fmt_d z.
Proof.
  destruct z as [|p|p]; try lia. intros _ Hcanon Hval.
  destruct s as [|a s]; [discriminate Hcanon|].
  unfold canonical_decimal in Hcanon.
  apply andb_true_iff in Hcanon. destruct Hcanon as [Hfirst Hdig].
  destruct (uint_of_digits _ Hdig) as [d Hd].
  rewrite <- Hd in Hval. rewrite value_of_uint in Hval.
  assert (Hof : Pos.of_uint d = Pos.of_uint (Pos.to_uint p)).
  { rewrite DecimalPos.Unsigned.of_to.
    destruct (Pos.of_uint d); simpl in Hval;
      [discriminate Hval | congruence]. }
  apply DecimalPos.Unsigned.of_inj in Hof. rewrite to_uint_normal in Hof.
  assert (Hnorm : Decimal.unorm d = d).
  { destruct d; simpl in Hd; try reflexivity.
    - discriminate Hd.
    - injection Hd as <- _. discriminate Hfirst. }
  rewrite Hnorm in Hof. subst d.
  unfold fmt_d. simpl Z.to_int. unfold NilZero.string_of_int.
  unfold NilZero.string_of_uint. rewrite <- Hd.
  pose proof (DecimalPos.Unsigned.to_uint_nonnil p) as Hnil.
  destruct (Pos.to_uint p); [contradiction | reflexivity ..].
Qed.

(** C6: the dial address is the host, a colon and the port in decimal:
    [22] when the endpoint's port is zero or negative; when it is
    positive, the numeral [%d] writes for the endpoint's port, which is
    made of digits only, does not start with a zero, denotes that port
    (no other such string does) and reads back as it. *)
Theorem C6_getHostWithPort (c : command) :
  (Port (endpoint c) <= 0 ->
   getHostWithPort c = (Host (endpoint c) ++ ":22")%string)
  /\ (0 < Port (endpoint c) ->
      getHostWithPort c
      = (Host (endpoint c) ++ ":" ++ fmt_d (Port (endpoint c)))%string
      /\ canonical_decimal (fmt_d (Port (endpoint c))) = true
      /\ decimal_value (fmt_d (Port (endpoint c))) = Port (endpoint c)
      /\ (forall digits,
             canonical_decimal digits = true ->
             decimal_value digits = Port (endpoint c) ->
             getHostWithPort c
             = (Host (endpoint c) ++ ":" ++ digits)%string)
      /\ parse_d (fmt_d (Port (endpoint c))) = Some (Port (endpoint c))).
Proof.
  unfold getHostWithPort. split; intros Hp.
  - replace (Port (endpoint c) <=? 0) with true
      by (symmetry; apply Z.leb_le; lia).
    reflexivity.
  - replace (Port (endpoint c) <=? 0) with false
      by (symmetry; apply Z.leb_gt; lia).
    destruct (fmt_d_positive _ Hp) as [Hcanon Hval].
    split; [reflexivity|]. split; [exact Hcanon|].
    split; [exact Hval|]. split; [|apply parse_d_fmt_d].
    intros digits Hc Hv.
    now rewrite (canonical_decimal_unique digits _ Hp Hc Hv).
Qed.

Lemma C6_getHostWithPort_witness :
  getHostWithPort (new_command "git-upload-pack" example_endpoint)
  = "example.com:22"%string
  /\ (getHostWithPort
        (new_command "git-upload-pack"
           {| Host := "example.com"; Port := 2222; User := "git";
              Path := "/repo.git" |})
      = "example.com:2222"%string
      /\ canonical_decimal "2222" = true
      /\ decimal_value "2222" = 2222
      /\ (forall digits,
             canonical_decimal digits = true ->
             decimal_value digits = 2222 ->
             getHostWithPort
               (new_command "git-upload-pack"
                  {| Host := "example.com"; Port := 2222; User := "git";
                     Path := "/repo.git" |})
             = ("example.com" ++ ":" ++ digits)%string)
      /\ parse_d "2222" = Some 2222).
Proof.
  split.
  - apply (proj1 (C6_getHostWithPort
                    (new_command "git-upload-pack" example_endpoint))).
    simpl. lia.
  - apply (proj2 (C6_getHostWithPort
                    (new_command "git-upload-pack"
                       {| Host := "example.com"; Port := 2222;
                          User := "git"; Path := "/repo.git" |}))).
    simpl. lia.
Defined.

(** A numeral with a leading zero reads as the same number and is not
    what is written. *)
Example leading_zero_not_canonical :
  parse_d "02222" = Some 2222 /\ canonical_decimal "02222" = false.
Proof. split; reflexivity. Qed.

Example getHostWithPort_2222 :
  getHostWithPort
    (new_command "git-upload-pack"
       {| Host := "example.com"; Port := 2222; User := "git";
          Path := "/repo.git" |})
  = "example.com:2222"%string.
Proof. reflexivity. Qed.

Example getHostWithPort_negative :
  getHostWithPort
    (new_command "git-upload-pack"
       {| Host := "example.com"; Port := -1; User := "git";
          Path := "/repo.git" |})
  = "example.com:22"%string.
Proof. reflexivity. Qed.

Lemma length_append (s1 s2 : string) :
  String.length (s1 ++ s2) = (String.length s1 + String.length s2)%nat.
Proof. induction s1 as [|a s1 IH]; simpl; [reflexivity | now rewrite IH]. Qed.

(** C7: the remote command line is the command name, one space, and the
    path between two single quotes, with nothing after the closing quote
    and nothing done to the path: three characters are added in all, and
    a quote inside the path stays as it is.  For the endpoint
    [example.com], port 0, user [git], path [/repo.git] and the command
    [git-upload-pack] the line is [git-upload-pack '/repo.git'] and the
    address [example.com:22]. *)
Theorem C7_endpointToCommand :
  (forall cmd ep,
      endpointToCommand cmd ep
      = (cmd ++ " " ++ ("'" ++ Path ep ++ "'"))%string
      /\ String.length (endpointToCommand cmd ep)
         = (String.length cmd + String.length (Path ep) + 3)%nat)
  /\ endpointToCommand "git-upload-pack" example_endpoint
     = "git-upload-pack '/repo.git'"%string
  /\ getHostWithPort (new_command "git-upload-pack" example_endpoint)
     = "example.com:22"%string
  /\ endpointToCommand "git-upload-pack"
       {| Host := "example.com"; Port := 0; User := "git";
          Path := "/o'brien.git" |}
     = "git-upload-pack '/o'brien.git'"%string.
Proof.
  split; [|repeat split].
  intros cmd ep. unfold endpointToCommand. split.
  - reflexivity.
  - rewrite !length_append. simpl. lia.
Qed.

(** * Further properties of aws/fetch/helpers.go *)

Section AppendIfNotInSlice.
Import AwsFetch.

Lemma found_after_scan (s : string) (l : list string) (found : bool) :
  fold_left (fun found e => if String.eqb e s then true else found) l found
  = found || existsb (fun e => String.eqb e s) l.
Proof.
  revert found. induction l as [|e l IH]; intros found; simpl.
  - now rewrite orb_false_r.
  - rewrite IH. destruct (String.eqb e s), found; reflexivity.
Qed.

Lemma scan_finds (s : string) (l : list string) :
  existsb (fun e => String.eqb e s) l = true <-> In s l.
Proof.
  rewrite existsb_exists. split.
  - intros (e & He & Heq). apply String.eqb_eq in Heq. now subst.
  - intros Hin. exists s. split; [exact Hin | apply String.eqb_refl].
Qed.

Lemma appendIfNotInSlice_present (l : list string) (s : string) :
  In s l -> appendIfNotInSlice l s = l.
Proof.
  intros Hin. unfold appendIfNotInSlice. rewrite found_after_scan. simpl.
  apply scan_finds in Hin. now rewrite Hin.
Qed.

Lemma appendIfNotInSlice_absent (l : list string) (s : string) :
  ~ In s l -> appendIfNotInSlice l s = l ++ [s].
Proof.
  intros Hout. unfold appendIfNotInSlice. rewrite found_after_scan. simpl.
  destruct (existsb (fun e => String.eqb e s) l) eqn:E; [|reflexivity].
  apply scan_finds in E. contradiction.
Qed.

(** [appendIfNotInSlice] gives the slice back as it is when [s] occurs in
    it, wherever that is, and the slice with [s] added at the end when it
    does not. *)
Theorem appendIfNotInSlice_cases (l : list string) (s : string) :
  (In s l -> appendIfNotInSlice l s = l)
  /\ (~ In s l -> appendIfNotInSlice l s = l ++ [s]).
Proof.
  split; [apply appendIfNotInSlice_present | apply appendIfNotInSlice_absent].
Qed.

(** The result holds [s] and what the slice held, nothing else; doing it
    again with the same [s] changes nothing. *)
Theorem appendIfNotInSlice_members (l : list string) (s : string) :
  (forall x, In x (appendIfNotInSlice l s) <-> In x l \/ x = s)
  /\ appendIfNotInSlice (appendIfNotInSlice l s) s = appendIfNotInSlice l s.
Proof.
  destruct (in_dec string_dec s l) as [Hs | Hs].
  - rewrite (appendIfNotInSlice_present l s Hs). split.
    + intros x. split; [tauto | intros [H | ->]; assumption].
    + exact (appendIfNotInSlice_present l s Hs).
  - rewrite (appendIfNotInSlice_absent l s Hs). split.
    + intros x. rewrite in_app_iff. simpl. intuition congruence.
    + apply appendIfNotInSlice_present. apply in_or_app. right. now left.
Qed.

(** A slice without repetitions stays without repetitions. *)
Theorem appendIfNotInSlice_NoDup (l : list string) (s : string) :
  NoDup l -> NoDup (appendIfNotInSlice l s).
Proof.
  intros Hl. destruct (in_dec string_dec s l) as [Hs | Hs].
  - now rewrite (appendIfNotInSlice_present l s Hs).
  - rewrite (appendIfNotInSlice_absent l s Hs).
    apply NoDup_app; [exact Hl | repeat constructor; auto |].
    intros x Hx [<- | []]. exact (Hs Hx).
Qed.
End AppendIfNotInSlice.

Lemma appendIfNotInSlice_cases_witness :
  AwsFetch.appendIfNotInSlice ["eu-west-1"; "us-east-1"]%string "eu-west-1"
  = ["eu-west-1"; "us-east-1"]%string
  /\ AwsFetch.appendIfNotInSlice ["eu-west-1"]%string "us-east-1"
     = ["eu-west-1"; "us-east-1"]%string.
Proof.
  split.
  - apply (proj1 (appendIfNotInSlice_cases
                    ["eu-west-1"; "us-east-1"]%string "eu-west-1")).
    simpl. left. reflexivity.
  - apply (proj2 (appendIfNotInSlice_cases
                    ["eu-west-1"]%string "us-east-1")).
    simpl. intros [H | []]. discriminate H.
Defined.

Lemma appendIfNotInSlice_NoDup_witness :
  NoDup (AwsFetch.appendIfNotInSlice ["eu-west-1"]%string "us-east-1").
Proof.
  apply (appendIfNotInSlice_NoDup ["eu-west-1"]%string "us-east-1").
  repeat constructor. simpl. tauto.
Defined.

Section ArnToName.
Import AwsFetch.

Lemma Split_nonempty (s : string) (sep : ascii) : Split s sep <> [].
Proof.
  destruct s as [|a s]; simpl; [discriminate|].
  destruct (Ascii.eqb a sep); [discriminate|].
  destruct (Split s sep); discriminate.
Qed.

Lemma Split_without_sep (s : string) (sep : ascii) :
  ~ In sep (list_ascii_of_string s) -> Split s sep = [s].
Proof.
  induction s as [|a s IH]; simpl; intros Hno; [reflexivity|].
  destruct (Ascii.eqb_spec a sep) as [-> | Hne]; [tauto|].
  rewrite IH by tauto. reflexivity.
Qed.

(** Splitting goes through a separator. *)
Lemma Split_at_sep (p name : string) (sep : ascii) :
  Split (p ++ String sep name) sep = Split p sep ++ Split name sep.
Proof.
  induction p as [|a p IH]; simpl.
  - now rewrite Ascii.eqb_refl.
  - destruct (Ascii.eqb a sep); rewrite IH; [reflexivity|].
    pose proof (Split_nonempty p sep) as Hne.
    destruct (Split p sep); [contradiction | reflexivity].
Qed.

(** A string has no separator, or a last one. *)
Lemma last_sep (s : string) (sep : ascii) :
  ~ In sep (list_ascii_of_string s)
  \/ exists p name,
      s = (p ++ String sep name)%string
      /\ ~ In sep (list_ascii_of_string name).
Proof.
  induction s as [|a s IH]; simpl; [left; tauto|].
  destruct IH as [Hno | (p & name & -> & Hname)].
  - destruct (Ascii.eqb_spec a sep) as [-> | Hne].
    + right. exists EmptyString, s. split; [reflexivity | exact Hno].
    + left. intros [H | H]; [congruence | tauto].
  - right. exists (String a p), name. split; [reflexivity | exact Hname].
Qed.

Lemma append_sep_assoc (p name : string) (sep : ascii) :
  ((p ++ String sep EmptyString) ++ name)%string
  = (p ++ String sep name)%string.
Proof. induction p as [|a p IH]; simpl; [reflexivity | now rewrite IH]. Qed.

Lemma arnToName_of_last (p name : string) :
  ~ In "/"%char (list_ascii_of_string name) ->
  arnToName (p ++ String "/" name) = name.
Proof.
  intros Hname. unfold arnToName.
  rewrite Split_at_sep, (Split_without_sep name) by exact Hname.
  pose proof (Split_nonempty p "/") as Hne.
  destruct (Split p "/") as [|x xs]; [contradiction|].
  rewrite length_app. simpl length.
  replace (1 <? S (length xs) + 1)%nat with true
    by (symmetry; apply Nat.ltb_lt; lia).
  replace (S (length xs) + 1 - 1)%nat with (length (x :: xs) + 0)%nat
    by (simpl; lia).
  rewrite app_nth2_plus. reflexivity.
Qed.

Lemma arnToName_of_plain (arn : string) :
  ~ In "/"%char (list_ascii_of_string arn) -> arnToName arn = arn.
Proof.
  intros Hno. unfold arnToName. now rewrite Split_without_sep.
Qed.

(** [arnToName] gives what follows the last slash of the ARN, and the
    ARN itself when it has no slash. *)
Theorem arnToName_last_segment (p name : string) :
  ~ In "/"%char (list_ascii_of_string name) ->
  arnToName (p ++ "/" ++ name) = name /\ arnToName name = name.
Proof.
  intros Hname. split.
  - apply arnToName_of_last, Hname.
  - apply arnToName_of_plain, Hname.
Qed.

(** Whatever the ARN, the name has no slash and ends the ARN; what comes
    before it is empty or ends with a slash; a name is its own name. *)
Theorem arnToName_slash_free_suffix (arn : string) :
  ~ In "/"%char (list_ascii_of_string (arnToName arn))
  /\ (exists prefix,
         arn = (prefix ++ arnToName arn)%string
         /\ (prefix = EmptyString
             \/ exists p, prefix = (p ++ "/")%string))
  /\ arnToName (arnToName arn) = arnToName arn.
Proof.
  destruct (last_sep arn "/") as [Hno | (p & name & -> & Hname)].
  - rewrite (arnToName_of_plain arn Hno).
    split; [exact Hno | split; [|exact (arnToName_of_plain arn Hno)]].
    exists EmptyString. split; [reflexivity | now left].
  - rewrite (arnToName_of_last p name Hname).
    split; [exact Hname | split; [|exact (arnToName_of_plain name Hname)]].
    exists (p ++ "/")%string. split; [|right; now exists p].
    symmetry. apply append_sep_assoc.
Qed.
End ArnToName.

Lemma arnToName_last_segment_witness :
  AwsFetch.arnToName "arn:aws:iam::123456789012:user/division_abc/Bob"
  = "Bob"%string
  /\ AwsFetch.arnToName "Bob" = "Bob"%string.
Proof.
  apply (arnToName_last_segment
           "arn:aws:iam::123456789012:user/division_abc" "Bob").
  simpl. intros H.
  repeat (destruct H as [H | H]; [discriminate H|]). exact H.
Defined.

Section SliceOfSliceCount.
Import AwsFetch.
Context {A : Type}.

(** How many chunks the loop appends, none of them empty. *)
Lemma sliceOfSlice_loop_count (l : list A) (m : Z) :
  0 < m -> m <= int_max -> len l <= 2 ^ 62 ->
  forall fuel pre rest res,
    l = pre ++ rest ->
    (length rest < fuel)%nat ->
    pre = [] \/ m <= len pre ->
    exists cs,
      sliceOfSlice_loop fuel l m (len pre) res
      = Some (Returned (res ++ cs))
      /\ Forall (fun c => c <> []) cs
      /\ Z.of_nat (length cs) = (len rest + m - 1) / m.
Proof.
  intros Hm Hmax Hl.
  induction fuel as [|fuel IH]; intros pre rest res El Hfuel Hpre;
    [lia|].
  assert (Hsum : len pre + len rest = len l)
    by (rewrite El, len_app; reflexivity).
  pose proof (len_nonneg pre) as Hp0. pose proof (len_nonneg rest) as Hr0.
  destruct rest as [|x rest'] eqn:Erest.
  { exists []. rewrite app_nil_r. split; [|split; [constructor|]].
    - apply sliceOfSlice_loop_done. unfold len in *. simpl in *. lia.
    - unfold len. simpl. rewrite Z.div_small; lia. }
  rewrite <- Erest in *.
  assert (Hpos : 0 < len rest)
    by (rewrite Erest; unfold len; simpl; lia).
  assert (Hw : wrap64 (len pre + m) = len pre + m).
  { apply wrap64_id. unfold is_int, int_min, int_max in *.
    destruct Hpre as [-> | Hge]; [unfold len; simpl; lia | lia]. }
  cbn [sliceOfSlice_loop].
  replace (len pre <? len l) with true by (symmetry; apply Z.ltb_lt; lia).
  rewrite Hw.
  destruct (len pre + m <? len l) eqn:Elt.
  - apply Z.ltb_lt in Elt.
    replace (slice l) with (slice (pre ++ rest)) by (rewrite El; reflexivity).
    rewrite slice_after by lia.
    set (c := firstn (Z.to_nat m) rest).
    assert (Hc : len c = m).
    { unfold c, len. rewrite length_firstn. unfold len in *. lia. }
    destruct (IH (pre ++ c) (skipn (Z.to_nat m) rest) (res ++ [c]))
      as (cs & Hrun & Hne & Hcount).
    + rewrite <- app_assoc. unfold c. rewrite firstn_skipn. exact El.
    + rewrite length_skipn. unfold len in *. lia.
    + right. rewrite len_app. lia.
    + exists (c :: cs). rewrite len_app, Hc in Hrun.
      split; [|split].
      * rewrite Hrun, <- app_assoc. reflexivity.
      * constructor; [|exact Hne].
        intros E. rewrite E in Hc. unfold len in Hc. simpl in Hc. lia.
      * simpl length. rewrite Nat2Z.inj_succ, Hcount.
        assert (Hskip : len (skipn (Z.to_nat m) rest) = len rest - m)
          by (unfold len; rewrite length_skipn; unfold len in *; lia).
        rewrite Hskip.
        replace (len rest + m - 1) with (len rest - m + m - 1 + 1 * m)
          by lia.
        rewrite Z.div_add by lia. lia.
  - apply Z.ltb_ge in Elt.
    replace (slice l (len pre) (len l))
      with (slice (pre ++ rest) (len pre) (len pre + len rest))
      by (rewrite El, Hsum, <- El; reflexivity).
    rewrite slice_after by lia.
    replace (Z.to_nat (len rest)) with (length rest)
      by (unfold len; lia).
    rewrite firstn_all.
    destruct fuel as [|fuel]; [unfold len in *; lia|].
    rewrite sliceOfSlice_loop_done by lia.
    exists [rest]. split; [reflexivity|]. split.
    + constructor; [|constructor]. rewrite Erest. discriminate.
    + simpl length. apply Z.div_unique with (r := len rest - 1).
      * left. lia.
      * lia.
Qed.

(** [sliceOfSlice] makes [ceil(len(in) / maxLength)] chunks, none of
    them empty. *)
Theorem sliceOfSlice_count (in_ : list A) (maxLength : Z) :
  0 < maxLength -> maxLength <= int_max -> len in_ <= 2 ^ 62 ->
  exists cs,
    sliceOfSlice in_ maxLength = Some (Returned cs)
    /\ Forall (fun c => c <> []) cs
    /\ Z.of_nat (length cs) = (len in_ + maxLength - 1) / maxLength.
Proof.
  intros Hm Hmax Hlen. unfold sliceOfSlice.
  replace (maxLength <=? 0) with false by (symmetry; apply Z.leb_gt; lia).
  destruct (len in_ =? 0) eqn:E0.
  - apply Z.eqb_eq in E0. exists []. split; [reflexivity|].
    split; [constructor|]. rewrite E0. simpl. rewrite Z.div_small; lia.
  - destruct (sliceOfSlice_loop_count in_ maxLength Hm Hmax Hlen
                (S (length in_)) [] in_ [])
      as (cs & Hrun & Hrest); [reflexivity | lia | now left |].
    exists cs. split; [exact Hrun | exact Hrest].
Qed.
End SliceOfSliceCount.

Lemma sliceOfSlice_count_witness :
  exists cs,
    AwsFetch.sliceOfSlice [1; 2; 3; 4; 5; 6; 7]%nat 3 = Some (Returned cs)
    /\ Forall (fun c => c <> []) cs
    /\ Z.of_nat (length cs) = (7 + 3 - 1) / 3.
Proof.
  apply (sliceOfSlice_count [1; 2; 3; 4; 5; 6; 7]%nat 3).
  - lia.
  - unfold int_max. lia.
  - unfold AwsFetch.len. simpl. lia.
Defined.

Lemma sliceOfSlice_total_witness :
  AwsFetch.sliceOfSlice [1; 2; 3]%nat int_max <> None.
Proof.
  apply (sliceOfSlice_total [1; 2; 3]%nat int_max).
  unfold is_int, int_min, int_max. lia.
Defined.

(** * Further properties of plumbing/transport/ssh/common.go *)

(** ** What the methods keep *)

(** None of [connect], [Close] and [Start] changes the command name or
    the endpoint a session was made for. *)
Theorem methods_keep_binding env st :
  (cmd (self (snd (connect env st))) = cmd (self st)
   /\ endpoint (self (snd (connect env st))) = endpoint (self st))
  /\ (cmd (self (snd (Close env st))) = cmd (self st)
      /\ endpoint (self (snd (Close env st))) = endpoint (self st))
  /\ snd (Start env st)
     = {| self := self st; trace := trace (snd (Start env st)) |}.
Proof.
  destruct st as [[S cn cm ep clt au] tr].
  split; [|split].
  - destruct (connect env _) as [r st'] eqn:Hrun.
    run_methods. split_run Hrun.
    all: injection Hrun as <- <-; split; reflexivity.
  - destruct (Close env _) as [r st'] eqn:Hrun.
    run_methods. split_run Hrun.
    all: injection Hrun as <- <-; split; reflexivity.
  - run_methods. destruct S; reflexivity.
Qed.

(** From an unconnected session, [connect] leaves the flag set exactly
    when it returns no error. *)
Theorem connect_flag env st r st' :
  connect env st = (r, st') ->
  connected (self st) = false ->
  (connected (self st') = true <-> r = Returned None).
Proof.
  destruct st as [[S cn cm ep clt au] tr]. simpl.
  intros Hrun ->. run_methods. split_run Hrun.
  all: injection Hrun as <- <-; simpl; split; congruence.
Qed.

Lemma connect_flag_witness :
  connected (self (snd (connect no_route (fresh_session (Some key_auth)))))
  = true
  <-> fst (connect no_route (fresh_session (Some key_auth)))
      = Returned None.
Proof.
  apply (connect_flag no_route (fresh_session (Some key_auth))
           (fst (connect no_route (fresh_session (Some key_auth))))
           (snd (connect no_route (fresh_session (Some key_auth)))));
    reflexivity.
Defined.

Lemma Close_clears_flag env st :
  connected (self (snd (Close env st))) = false.
Proof.
  destruct st as [[S [|] cm ep clt au] tr].
  all: destruct (Close env _) as [r st'] eqn:Hrun.
  all: run_methods; split_run Hrun.
  all: injection Hrun as <- <-; reflexivity.
Qed.

Lemma Close_keeps_auth env st :
  auth (self (snd (Close env st))) = auth (self st).
Proof.
  destruct st as [[S cn cm ep clt au] tr].
  destruct (Close env _) as [r st'] eqn:Hrun.
  run_methods. split_run Hrun.
  all: injection Hrun as <- <-; reflexivity.
Qed.

(** Whatever [Close] did, the flag is clear afterwards, and closing again
    returns no error and calls nothing. *)
Theorem Close_twice env env' st r st' :
  Close env st = (r, st') ->
  connected (self st') = false
  /\ Close env' st' = (Returned None, st').
Proof.
  intros Hrun.
  pose proof (Close_clears_flag env st) as Hflag.
  rewrite Hrun in Hflag. simpl in Hflag.
  split; [exact Hflag|].
  destruct st' as [c' t']. simpl in Hflag.
  unfold Close, bind, this, ret. simpl. rewrite Hflag. reflexivity.
Qed.

Lemma Close_twice_witness :
  let st := snd (connect all_good (fresh_session (Some key_auth))) in
  connected (self (snd (Close failing_closes st))) = false
  /\ Close failing_closes (snd (Close failing_closes st))
     = (Returned None, snd (Close failing_closes st)).
Proof.
  intros st.
  apply (Close_twice failing_closes failing_closes st
           (fst (Close failing_closes st))).
  reflexivity.
Defined.

(** ** Failures of [connect] *)

(** When the dial made by [connect] answers an error, [connect] returns
    that error, calls nothing after the dial (there is no close), keeps
    in [client] what the dial returned and leaves the flag clear. *)
Theorem connect_dial_failure
        env st r st' new pre net addr cfg tail ocl e :
  connect env st = (r, st') ->
  trace st' = trace st ++ new ->
  new = pre ++ CallDial net addr cfg :: tail ->
  Dial env (trace st ++ pre) net addr cfg = (ocl, Some e) ->
  r = Returned (Some e)
  /\ tail = []
  /\ client (self st') = ocl
  /\ connected (self st') = false.
Proof.
  destruct st as [[S cn cm ep clt au] tr].
  intros Hrun Htr Hnew Hd.
  run_methods. split_run Hrun.
  all: injection Hrun as <- <-; simpl in *; flatten_traces.
  all: new_events Htr; subst new.
  all: peel.
  all: flatten_traces.
  all: repeat split; congruence.
Qed.

Lemma connect_dial_failure_witness :
  let st := fresh_session (Some key_auth) in
  fst (connect no_route st)
  = Returned (Some (ErrExternal "connection refused"))
  /\ @nil Event = []
  /\ client (self (snd (connect no_route st))) = None
  /\ connected (self (snd (connect no_route st))) = false.
Proof.
  intros st.
  apply (connect_dial_failure
           no_route st
           (fst (connect no_route st)) (snd (connect no_route st))
           (trace (snd (connect no_route st)))
           [CallClientConfig key_auth; CallHostKeyCallback key_auth]
           "tcp" "example.com:22"
           (set_HostKeyCallback (Some 2%nat) agent_config)
           [] None (ErrExternal "connection refused")); reflexivity.
Defined.

(** A failure to get a method or its host key check ends [connect]
    before anything is dialed: the error of the default builder is
    returned right after the builder's call (what the builder returned
    beside it is stored); the error of [hostKeyCallback()], for a method
    whose [clientConfig()] is not nil, right after the two calls to the
    method.  (With a nil [clientConfig()] there is a panic instead, see
    [connect_nil_panics].) *)
Theorem connect_auth_failures env c t e :
  connected c = false ->
  (auth c = None ->
   snd (DefaultAuthBuilder env t (User (endpoint c))) = Some e ->
   connect env {| self := c; trace := t |}
   = (Returned (Some e),
      {| self := set_auth
                   (fst (DefaultAuthBuilder env t (User (endpoint c)))) c;
         trace := t ++ [CallDefaultAuthBuilder (User (endpoint c))] |}))
  /\ (forall a,
         auth c = Some a ->
         clientConfig a <> None ->
         snd (hostKeyCallback a) = Some e ->
         connect env {| self := c; trace := t |}
         = (Returned (Some e),
            {| self := c;
               trace := t ++ [CallClientConfig a;
                              CallHostKeyCallback a] |})).
Proof.
  destruct c as [S cn cm ep clt au]. simpl. intros ->. split.
  - intros -> Hb. run_methods.
    destruct (DefaultAuthBuilder env t (User ep)) as [oa oe].
    simpl in *. subst oe. reflexivity.
  - intros a -> Hcfg Hcb. run_methods.
    destruct (clientConfig a) as [cfg|]; [|congruence].
    destruct (hostKeyCallback a) as [cb oe]. simpl in *. subst oe.
    flatten_traces. reflexivity.
Qed.

Lemma connect_auth_failures_witness :
  connect no_agent (fresh_session None)
  = (Returned (Some (ErrExternal "SSH_AUTH_SOCK not set")),
     {| self := new_command "git-upload-pack" example_endpoint;
        trace := [CallDefaultAuthBuilder "git"] |})
  /\ connect all_good (fresh_session (Some no_known_hosts))
     = (Returned (Some (ErrExternal "known_hosts: not found")),
        {| self := self (fresh_session (Some no_known_hosts));
           trace := [CallClientConfig no_known_hosts;
                     CallHostKeyCallback no_known_hosts] |}).
Proof.
  split.
  - apply (proj1 (connect_auth_failures
                    no_agent (self (fresh_session None)) []
                    (ErrExternal "SSH_AUTH_SOCK not set") eq_refl));
      reflexivity.
  - apply (proj2 (connect_auth_failures
                    all_good (self (fresh_session (Some no_known_hosts))) []
                    (ErrExternal "known_hosts: not found") eq_refl)
                 no_known_hosts); [reflexivity | discriminate | reflexivity].
Defined.

(** Two answers make [connect] panic on a nil value instead of returning:
    a default builder that gives neither a method nor an error (the
    panic comes right after the builder's call), and a method whose
    [clientConfig()] is nil.  Nothing is dialed in either case. *)
Theorem connect_nil_panics env c t :
  connected c = false ->
  (auth c = None ->
   DefaultAuthBuilder env t (User (endpoint c)) = (None, None) ->
   connect env {| self := c; trace := t |}
   = (Panicked,
      {| self := c;
         trace := t ++ [CallDefaultAuthBuilder (User (endpoint c))] |}))
  /\ (forall a,
         auth c = Some a ->
         clientConfig a = None ->
         fst (connect env {| self := c; trace := t |}) = Panicked
         /\ exists new,
             trace (snd (connect env {| self := c; trace := t |}))
             = t ++ new
             /\ existsb is_network_call new = false).
Proof.
  destruct c as [S cn cm ep clt au]. simpl. intros ->. split.
  - intros -> Hb. run_methods. rewrite Hb. reflexivity.
  - intros a -> Hcfg. run_methods. rewrite Hcfg. simpl.
    split; [reflexivity|]. flatten_traces.
    eexists. split; reflexivity.
Qed.

Lemma connect_nil_panics_witness :
  connect empty_builder (fresh_session None)
  = (Panicked,
     {| self := self (fresh_session None);
        trace := [CallDefaultAuthBuilder "git"] |})
  /\ fst (connect all_good (fresh_session (Some no_config))) = Panicked.
Proof.
  split.
  - apply (proj1 (connect_nil_panics
                    empty_builder (self (fresh_session None)) [] eq_refl));
      reflexivity.
  - apply (proj2 (connect_nil_panics
                    all_good (self (fresh_session (Some no_config))) []
                    eq_refl) no_config); reflexivity.
Defined.

(** ** The dial *)

(** A dial made by [connect] is its first call to the network and its
    only dial; it goes over [tcp] to the address of the session's
    endpoint, with the configuration of the session's method in which
    the host key check is the one that method returned without error. *)
Theorem connect_dial_is_first
        env st r st' new pre net addr cfg tail :
  connect env st = (r, st') ->
  trace st' = trace st ++ new ->
  new = pre ++ CallDial net addr cfg :: tail ->
  net = "tcp"%string
  /\ addr = getHostWithPort (self st)
  /\ existsb is_network_call pre = false
  /\ (forall n a c, ~ In (CallDial n a c) tail)
  /\ exists a cfg0,
      auth (self st') = Some a
      /\ clientConfig a = Some cfg0
      /\ snd (hostKeyCallback a) = None
      /\ cfg = set_HostKeyCallback (fst (hostKeyCallback a)) cfg0.
Proof.
  destruct st as [[S cn cm ep clt au] tr].
  intros Hrun Htr Hnew.
  run_methods. split_run Hrun.
  all: injection Hrun as <- <-; simpl in *; flatten_traces.
  all: new_events Htr; subst new.
  all: peel.
  all: split; [reflexivity|].
  all: split; [reflexivity|].
  all: split; [reflexivity|].
  all: split.
  all: try (intros ? ? ? Hin; simpl in Hin; intuition discriminate).
  all: eexists; eexists; split; [reflexivity|]; split; [eassumption|].
  all: match goal with
       | H : hostKeyCallback _ = _ |- _ => rewrite H
       end; split; reflexivity.
Qed.

Lemma connect_dial_is_first_witness :
  let st := fresh_session (Some key_auth) in
  "tcp"%string = "tcp"%string
  /\ "example.com:22"%string = getHostWithPort (self st)
  /\ existsb is_network_call
             [CallClientConfig key_auth; CallHostKeyCallback key_auth]
     = false
  /\ (forall n a c,
         ~ In (CallDial n a c) [CallNewSession 7%nat; StoreConnected true])
  /\ exists a cfg0,
      auth (self (snd (connect all_good st))) = Some a
      /\ clientConfig a = Some cfg0
      /\ snd (hostKeyCallback a) = None
      /\ set_HostKeyCallback (Some 2%nat) agent_config
         = set_HostKeyCallback (fst (hostKeyCallback a)) cfg0.
Proof.
  intros st.
  apply (connect_dial_is_first
           all_good st
           (fst (connect all_good st)) (snd (connect all_good st))
           (trace (snd (connect all_good st)))
           [CallClientConfig key_auth; CallHostKeyCallback key_auth]
           "tcp" "example.com:22"
           (set_HostKeyCallback (Some 2%nat) agent_config)
           [CallNewSession 7%nat; StoreConnected true]); reflexivity.
Defined.

(** ** Construction, and what follows it *)

(** What a successful construction hands over. *)
Lemma Command_success env name ep given h c st :
  Command env name ep given h = (Returned (Some c, None), st) ->
  self st = c
  /\ connected c = true
  /\ cmd c = name
  /\ endpoint c = ep
  /\ exists a, auth c = Some a.
Proof.
  intros Hrun. destruct given as [[a | foreign] |].
  all: run_methods; split_run Hrun.
  all: try discriminate Hrun.
  all: injection Hrun as <- <-; simpl; repeat split; eauto.
Qed.

(** [Command] returns a session or an error, never both and never
    neither.  The session it returns is connected and is bound to the
    command name and the endpoint given, with the method given when that
    was an SSH one; when it returns an error, or panics, the session it
    worked on is left unconnected. *)
Theorem Command_result env name ep given h :
  match fst (Command env name ep given h) with
  | Returned (Some c, None) =>
      c = self (snd (Command env name ep given h))
      /\ connected c = true
      /\ cmd c = name
      /\ endpoint c = ep
      /\ match given with
         | Some (SSHAuth a) => auth c = Some a
         | _ => exists a, auth c = Some a
         end
  | Returned (None, Some _) =>
      connected (self (snd (Command env name ep given h))) = false
  | Returned _ => False
  | Panicked =>
      connected (self (snd (Command env name ep given h))) = false
  end.
Proof.
  destruct (Command env name ep given h) as [r st] eqn:Hrun.
  destruct given as [[a | foreign] |].
  all: run_methods; split_run Hrun.
  all: injection Hrun as <- <-; simpl; repeat split; eauto.
Qed.

(** On the session a construction returned, [Start] asks the channel to
    run the command name given at construction with the quoted path of
    the endpoint given there, once, returns what the channel answers and
    leaves the session as it is. *)
Theorem Start_after_Command env name ep given h c st s :
  Command env name ep given h = (Returned (Some c, None), st) ->
  Session c = Some s ->
  Start env st
  = (Returned (SessionStart env (trace st) s
                 (name ++ " '" ++ Path ep ++ "'")),
     {| self := c;
        trace := trace st
                 ++ [CallSessionStart s (name ++ " '" ++ Path ep ++ "'")] |}).
Proof.
  intros Hrun Hs.
  destruct (Command_success _ _ _ _ _ _ _ Hrun) as (Hc & _ & Hn & He & _).
  destruct st as [c' t]. simpl in Hc. subst c'.
  unfold Start, bind, this, call. simpl. rewrite Hs, Hn, He. reflexivity.
Qed.

Lemma Start_after_Command_witness :
  let run := Command all_good "git-upload-pack" example_endpoint None [] in
  Start all_good (snd run)
  = (Returned None,
     {| self := self (snd run);
        trace := trace (snd run)
                 ++ [CallSessionStart 9%nat
                       "git-upload-pack '/repo.git'"] |}).
Proof.
  intros run.
  apply (Start_after_Command all_good "git-upload-pack" example_endpoint
           None [] (self (snd run)) (snd run) 9%nat); reflexivity.
Defined.

Lemma connect_with_method env c t a :
  connected c = false -> auth c = Some a ->
  exists new,
    trace (snd (connect env {| self := c; trace := t |}))
    = t ++ CallClientConfig a :: new
    /\ builder_calls new = [].
Proof.
  destruct c as [S cn cm ep clt au]. simpl. intros -> ->.
  destruct (connect env _) as [r st'] eqn:Hrun.
  run_methods. split_run Hrun.
  all: injection Hrun as <- <-; simpl; flatten_traces.
  all: eexists; split; reflexivity.
Qed.

(** A session that was constructed and then closed is not refused by
    [connect]: it goes on to configure and dial again, with the method
    the session already has, and does not ask the default builder. *)
Theorem connect_again_after_Close env env' name ep given h c st r st1 :
  Command env name ep given h = (Returned (Some c, None), st) ->
  Close env st = (r, st1) ->
  exists a new,
    auth c = Some a
    /\ trace (snd (connect env' st1))
       = trace st1 ++ CallClientConfig a :: new
    /\ builder_calls new = [].
Proof.
  intros Hrun Hclose.
  destruct (Command_success _ _ _ _ _ _ _ Hrun) as (Hc & _ & _ & _ & a & Ha).
  pose proof (Close_clears_flag env st) as Hflag.
  rewrite Hclose in Hflag. simpl in Hflag.
  pose proof (Close_keeps_auth env st) as Hauth.
  rewrite Hclose, Hc, Ha in Hauth. simpl in Hauth.
  destruct st1 as [c1 t1]. simpl in *.
  destruct (connect_with_method env' c1 t1 a Hflag Hauth) as (new & Hnew).
  exists a, new. split; [exact Ha | exact Hnew].
Qed.

Lemma connect_again_after_Close_witness :
  let st := snd (Command all_good "git-upload-pack" example_endpoint
                         None []) in
  let st1 := snd (Close all_good st) in
  exists a new,
    auth (self st) = Some a
    /\ trace (snd (connect all_good st1))
       = trace st1 ++ CallClientConfig a :: new
    /\ builder_calls new = [].
Proof.
  intros st st1.
  apply (connect_again_after_Close
           all_good all_good "git-upload-pack" example_endpoint None []
           (self st) st (fst (Close all_good st)) st1); reflexivity.
Defined.

(** ** The command line and the path *)

Lemma append_inv_head (s a b : string) :
  (s ++ a)%string = (s ++ b)%string -> a = b.
Proof.
  induction s as [|c s IH]; simpl; [tauto|].
  intros [= H]. exact (IH H).
Qed.

Lemma append_quote_inv (a b : string) :
  (a ++ "'")%string = (b ++ "'")%string -> a = b.
Proof.
  revert b. induction a as [|c a IH]; intros [|d b]; simpl.
  - reflexivity.
  - intros [= _ H]. destruct b; discriminate H.
  - intros [= _ H]. destruct a; discriminate H.
  - intros [= -> H]. now rewrite (IH b H).
Qed.

(** For one command name, two endpoints give the same command line only
    when they have the same path: the line determines the path. *)
Theorem endpointToCommand_path_inj (name : string) (ep1 ep2 : Endpoint) :
  endpointToCommand name ep1 = endpointToCommand name ep2 ->
  Path ep1 = Path ep2.
Proof.
  unfold endpointToCommand. intros H.
  apply append_inv_head in H. simpl in H. injection H as H.
  exact (append_quote_inv _ _ H).
Qed.

Lemma endpointToCommand_path_inj_witness :
  Path example_endpoint
  = Path {| Host := "git.example.org"; Port := 2222; User := "deploy";
            Path := "/repo.git" |}.
Proof.
  apply (endpointToCommand_path_inj "git-receive-pack"). reflexivity.
Defined.
